(** * VibePlayer: zone resolution and the audio unlock controller

    A shallow embedding of [frontend/src/App.jsx] and of the backend's
    [GET /api/zones] handler.

    JavaScript numbers are idealised as real numbers: degrees, metres and
    the media position are values of [R], the [Math] functions are the real
    functions of the same name.  React state is modelled the way React
    defines it: every render hands the component a snapshot of its state,
    the functions created by that render close over the snapshot, and a
    setter only writes the value the next render will see. *)

From Stdlib Require Import Reals Lra Lia List String Bool Arith ZArith.
Import ListNotations.

Local Open Scope R_scope.

(** ** The [Math] object *)

Module Math.

Definition PI : R := Rtrigo1.PI.
Definition sin : R -> R := Rtrigo_def.sin.
Definition cos : R -> R := Rtrigo_def.cos.
Definition sqrt : R -> R := R_sqrt.sqrt.

(** [Math.atan2(y, x)]: the angle of the point [(x, y)], in [(-PI, PI]]. *)
Definition atan2 (y x : R) : R :=
  if Rlt_dec 0 x then atan (y / x)
  else if Rlt_dec x 0 then
    (if Rle_dec 0 y then atan (y / x) + Rtrigo1.PI
     else atan (y / x) - Rtrigo1.PI)
  else if Rlt_dec 0 y then Rtrigo1.PI / 2
  else if Rlt_dec y 0 then - (Rtrigo1.PI / 2)
  else 0.

End Math.

(** ** Values *)

(** [x <= y] as the boolean a JavaScript comparison yields. *)
Definition Rleb (x y : R) : bool := if Rle_dec x y then true else false.

(** Truthiness of a number: every number except zero. *)
Definition truthy_num (x : R) : bool := if Req_dec_T x 0 then false else true.

(** Truthiness of a string: every string except the empty one. *)
Definition truthy_str (s : string) : bool :=
  match s with EmptyString => false | _ => true end.

Inductive JsError : Type :=
| TypeError (msg : string)
| DOMException (msg : string).

(** The outcome of evaluating JavaScript code: a value, or a thrown error. *)
Inductive Completion (A : Type) : Type :=
| Normal (a : A)
| Throw (e : JsError).

Arguments Normal {A} a.
Arguments Throw {A} e.

(** ** Data model *)

Record Center : Type := { lat : R; lng : R }.

(** A zone record of [zones.json].  [radius_m] and [playlist] are [None]
    when the property is missing from the record. *)
Record Zone : Type := {
  id : Z;
  name : string;
  center : Center;
  radius_m : option R;
  playlist : option (list string)
}.

(** The [coords] of a position fix. *)
Record Coords : Type := { latitude : R; longitude : R }.

(** What a response body of [/api/zones] parses to: the array of zones, or
    an object such as the backend's error body. *)
Inductive JsonBody : Type :=
| JArray (zs : list Zone)
| JObject (fields : list (string * string)).

(** ** Zone resolver (App.jsx, lines 3-26) *)

Definition toRad (deg : R) : R := (deg * Math.PI) / 180.

Definition distanceMeters (lat1 lon1 lat2 lon2 : R) : R :=
  let R0 := 6371000 in
  let dLat := toRad (lat2 - lat1) in
  let dLon := toRad (lon2 - lon1) in
  let a :=
    Math.sin (dLat / 2) ^ 2 +
    Math.cos (toRad lat1) * Math.cos (toRad lat2) * Math.sin (dLon / 2) ^ 2 in
  R0 * 2 * Math.atan2 (Math.sqrt a) (Math.sqrt (1 - a)).

(** The distance from a position fix to the centre of a zone, as the loop
    body computes it (lines 17-22). *)
Definition distanceTo (coords : Coords) (z : Zone) : R :=
  distanceMeters (latitude coords) (longitude coords)
                 (lat (center z)) (lng (center z)).

(** [z.radius_m || 50] *)
Definition radius_or_default (z : Zone) : R :=
  match radius_m z with
  | Some r => if truthy_num r then r else 50
  | None => 50
  end.

(** The position lies within the radius of the zone. *)
Definition reaches (coords : Coords) (z : Zone) : Prop :=
  distanceTo coords z <= radius_or_default z.

(** The test of the loop body: [d <= (z.radius_m || 50)]. *)
Definition covers (coords : Coords) (z : Zone) : bool :=
  let d := distanceTo coords z in
  Rleb d (radius_or_default z).

(** [for (const z of zones) { ... if (d <= ...) return z; } return null;] *)
Fixpoint findZone_loop (zones : list Zone) (coords : Coords) : option Zone :=
  match zones with
  | [] => None
  | z :: rest => if covers coords z then Some z else findZone_loop rest coords
  end.

(** [findZone(zones, coords)].  [zones] is whatever the component's state
    holds; [for ... of] over a plain object throws a [TypeError]. *)
Definition findZone (zones : JsonBody) (coords : option Coords)
  : Completion (option Zone) :=
  match coords with
  | None => Normal None
  | Some c =>
      match zones with
      | JArray zs => Normal (findZone_loop zs c)
      | JObject _ => Throw (TypeError "zones is not iterable")
      end
  end.

(** The resolver as section 4.1 of the specification words it: the first
    zone whose distance is at most [radius_m], 50 m when [radius_m] is
    unspecified. *)
Definition spec_radius (z : Zone) : R :=
  match radius_m z with
  | Some r => r
  | None => 50
  end.

Definition spec_covers (coords : Coords) (z : Zone) : bool :=
  Rleb (distanceTo coords z) (spec_radius z).

Definition resolve_spec (zones : list Zone) (coords : Coords) : option Zone :=
  find (spec_covers coords) zones.

(** ** Backend: [GET /api/zones] *)

Record Response : Type := {
  status : Z;
  body : option JsonBody   (* [None]: the body is not JSON text *)
}.

(** The handler.  [file] is the completion of
    [JSON.parse(fs.readFileSync(ZONES_PATH, 'utf8'))]. *)
Definition apiZones (file : Completion JsonBody) : Response :=
  match file with
  | Normal zones => {| status := 200; body := Some zones |}
  | Throw _ =>
      {| status := 500;
         body := Some (JObject [("error", "Could not read zones")%string]) |}
  end.

(** How the promise of [fetch("/api/zones")] settles: it rejects only when
    no response arrives. *)
Inductive FetchResult : Type :=
| NetworkError
| Responded (r : Response).

(** ** Browser objects *)

(** The [<audio>] element.  [playCalls] counts the calls of [play()]. *)
Record Audio : Type := {
  src : string;
  muted : bool;
  currentTime : R;
  paused : bool;
  playCalls : nat
}.

Definition set_src (s : string) (a : Audio) : Audio :=
  {| src := s; muted := muted a; currentTime := currentTime a;
     paused := paused a; playCalls := playCalls a |}.

Definition set_muted (m : bool) (a : Audio) : Audio :=
  {| src := src a; muted := m; currentTime := currentTime a;
     paused := paused a; playCalls := playCalls a |}.

Definition set_currentTime (t : R) (a : Audio) : Audio :=
  {| src := src a; muted := muted a; currentTime := t;
     paused := paused a; playCalls := playCalls a |}.

(** [a.play()]: the call returns a promise the browser settles later. *)
Definition play (a : Audio) : Audio :=
  {| src := src a; muted := muted a; currentTime := currentTime a;
     paused := paused a; playCalls := S (playCalls a) |}.

(** The element once a [play()] promise is fulfilled. *)
Definition playing (a : Audio) : Audio :=
  {| src := src a; muted := muted a; currentTime := currentTime a;
     paused := false; playCalls := playCalls a |}.

Definition pause (a : Audio) : Audio :=
  {| src := src a; muted := muted a; currentTime := currentTime a;
     paused := true; playCalls := playCalls a |}.

(** [localStorage].  When storage is not available every access throws. *)
Record Storage : Type := {
  available : bool;
  items : list (string * string)
}.

Fixpoint lookup (k : string) (kvs : list (string * string)) : option string :=
  match kvs with
  | [] => None
  | (k', v) :: rest => if String.eqb k k' then Some v else lookup k rest
  end.

Fixpoint remove_key (k : string) (kvs : list (string * string))
  : list (string * string) :=
  match kvs with
  | [] => []
  | (k', v) :: rest =>
      if String.eqb k k' then remove_key k rest
      else (k', v) :: remove_key k rest
  end.

Definition getItem (k : string) (st : Storage) : Completion (option string) :=
  if available st then Normal (lookup k (items st))
  else Throw (DOMException "SecurityError").

Definition setItem (k v : string) (st : Storage) : Completion Storage :=
  if available st then
    Normal {| available := true; items := (k, v) :: remove_key k (items st) |}
  else Throw (DOMException "SecurityError").

Definition removeItem (k : string) (st : Storage) : Completion Storage :=
  if available st then
    Normal {| available := true; items := remove_key k (items st) |}
  else Throw (DOMException "SecurityError").

(** [try { op } catch {}] on the storage: a failed write leaves it as it is. *)
Definition try_storage (c : Completion Storage) (st : Storage) : Storage :=
  match c with
  | Normal st' => st'
  | Throw _ => st
  end.

(** The initialiser of the [audioPrimed] state (lines 34-40): the unlock
    flag as a session reads it when it loads. *)
Definition persistedFlag (st : Storage) : bool :=
  match getItem "audioPrimed" st with
  | Normal (Some v) => String.eqb v "1"
  | Normal None => false
  | Throw _ => false
  end.

(** ** Component state *)

(** The state variables of [App], as one render sees them. *)
Record Hooks : Type := {
  zones : JsonBody;
  coords : option Coords;
  zone : option Zone;
  audioPrimed : bool;
  primingInProgress : bool
}.

(** Where an invocation of [handleUserEnable] is suspended. *)
Inductive PrimeStage : Type :=
| AwaitMutedPlay                 (* line 112 *)
| AwaitAudiblePlay               (* line 119 *)
| PrimeReturned (ok : bool).     (* line 138: [primeAudio] has returned *)

Record App : Type := {
  state : Hooks;                 (* the values the setters wrote last *)
  view : Hooks;                  (* the snapshot of the committed render *)
  gestureListener : option Hooks;(* the window listener and the snapshot
                                    its closure captured *)
  audioRef : option Audio;
  localStorage : Storage;
  priming : list PrimeStage;     (* invocations of [handleUserEnable]
                                    awaiting [primeAudio] *)
  autoPlays : nat;               (* unsettled [play()] promises of the
                                    zone-change effect *)
  console : list string
}.

Definition with_state (h : Hooks) (app : App) : App :=
  {| state := h; view := view app; gestureListener := gestureListener app;
     audioRef := audioRef app; localStorage := localStorage app;
     priming := priming app; autoPlays := autoPlays app;
     console := console app |}.

Definition with_listener (l : option Hooks) (app : App) : App :=
  {| state := state app; view := view app; gestureListener := l;
     audioRef := audioRef app; localStorage := localStorage app;
     priming := priming app; autoPlays := autoPlays app;
     console := console app |}.

Definition with_audio (a : Audio) (app : App) : App :=
  {| state := state app; view := view app;
     gestureListener := gestureListener app;
     audioRef := Some a; localStorage := localStorage app;
     priming := priming app; autoPlays := autoPlays app;
     console := console app |}.

Definition with_storage (st : Storage) (app : App) : App :=
  {| state := state app; view := view app;
     gestureListener := gestureListener app;
     audioRef := audioRef app; localStorage := st;
     priming := priming app; autoPlays := autoPlays app;
     console := console app |}.

Definition with_priming (ps : list PrimeStage) (app : App) : App :=
  {| state := state app; view := view app;
     gestureListener := gestureListener app;
     audioRef := audioRef app; localStorage := localStorage app;
     priming := ps; autoPlays := autoPlays app;
     console := console app |}.

Definition with_autoPlays (n : nat) (app : App) : App :=
  {| state := state app; view := view app;
     gestureListener := gestureListener app;
     audioRef := audioRef app; localStorage := localStorage app;
     priming := priming app; autoPlays := n;
     console := console app |}.

(** [console.error] / [console.warn]: the message is recorded. *)
Definition log (msg : string) (app : App) : App :=
  {| state := state app; view := view app;
     gestureListener := gestureListener app;
     audioRef := audioRef app; localStorage := localStorage app;
     priming := priming app; autoPlays := autoPlays app;
     console := console app ++ [msg] |}.

(** The setters of [useState]. *)
Definition setZones (v : JsonBody) (app : App) : App :=
  let h := state app in
  with_state {| zones := v; coords := coords h; zone := zone h;
                audioPrimed := audioPrimed h;
                primingInProgress := primingInProgress h |} app.

Definition setCoords (c : Coords) (app : App) : App :=
  let h := state app in
  with_state {| zones := zones h; coords := Some c; zone := zone h;
                audioPrimed := audioPrimed h;
                primingInProgress := primingInProgress h |} app.

Definition setZone (z : option Zone) (app : App) : App :=
  let h := state app in
  with_state {| zones := zones h; coords := coords h; zone := z;
                audioPrimed := audioPrimed h;
                primingInProgress := primingInProgress h |} app.

Definition setAudioPrimed (b : bool) (app : App) : App :=
  let h := state app in
  with_state {| zones := zones h; coords := coords h; zone := zone h;
                audioPrimed := b;
                primingInProgress := primingInProgress h |} app.

Definition setPrimingInProgress (b : bool) (app : App) : App :=
  let h := state app in
  with_state {| zones := zones h; coords := coords h; zone := zone h;
                audioPrimed := audioPrimed h;
                primingInProgress := b |} app.

(** ** Loading the zones (lines 48-55) *)

(** The promise chain [fetch(..).then(r => r.json()).then(setZones).catch(..)]
    once [fetch] has settled.  [r.json()] rejects when the body is not JSON;
    the status of the response is not looked at. *)
Definition zonesLoaded (res : FetchResult) (app : App) : App :=
  match res with
  | NetworkError => log "Failed to load zones:" app
  | Responded r =>
      match body r with
      | Some v => setZones v app
      | None => log "Failed to load zones:" app
      end
  end.

(** The debug panel of the render (lines 242-245): [zones.map(..)] exists on
    arrays only. *)
Definition debugPanel (zs : JsonBody)
  : Completion (list (Z * string * Center * option R)) :=
  match zs with
  | JArray l =>
      Normal (map (fun z => (id z, name z, center z, radius_m z)) l)
  | JObject _ => Throw (TypeError "zones.map is not a function")
  end.

(** ** Zone change (lines 72-100) *)

(** [z.playlist && z.playlist[0]]: [None] is [undefined]. *)
Definition firstTrack (z : Zone) : option string :=
  match playlist z with
  | Some (t :: _) => Some t
  | Some [] => None
  | None => None
  end.

(** Truthiness of a track that may be [undefined]. *)
Definition truthy_track (t : option string) : bool :=
  match t with
  | Some s => truthy_str s
  | None => false
  end.

(** The effect of lines 72-100, run by the render whose snapshot is [snap]. *)
Definition zoneEffect (snap : Hooks) (app : App) : Completion App :=
  match findZone (zones snap) (coords snap) with
  | Throw e => Throw e
  | Normal z =>
      let app := setZone z app in
      match z, audioRef app with
      | Some z, Some a =>
          let track := firstTrack z in
          let a :=
            match track with
            | Some s => if truthy_str s then set_src s a else a
            | None => a
            end in
          if audioPrimed snap && truthy_track track then
            Normal (with_autoPlays (S (autoPlays app)) (with_audio (play a) app))
          else Normal (with_audio a app)
      | _, _ => Normal app
      end
  end.

(** One [play()] promise of the effect settles: fulfilled ([ok]), or rejected
    and handled by the [.catch] of lines 91-98. *)
Definition autoPlaySettled (ok : bool) (app : App) : App :=
  let app := with_autoPlays (Nat.pred (autoPlays app)) app in
  if ok then
    match audioRef app with
    | Some a => with_audio (playing a) app
    | None => app
    end
  else
    let app := log "Auto-play attempt failed after priming:" app in
    let app :=
      with_storage
        (try_storage (removeItem "audioPrimed" (localStorage app))
                     (localStorage app)) app in
    setAudioPrimed false app.

(** ** Unlock procedure (lines 103-131) *)

(** [(zone && zone.playlist && zone.playlist[0]) || a.src || ""] *)
Definition primeTrack (zone : option Zone) (a : Audio) : string :=
  let t := match zone with Some z => firstTrack z | None => None end in
  match t with
  | Some s =>
      if truthy_str s then s
      else if truthy_str (src a) then src a else ""%string
  | None => if truthy_str (src a) then src a else ""%string
  end.

(** Lines 107-112, up to the first [await]. *)
Definition primeAudio_begin (zone : option Zone) (a : Audio) : Audio :=
  let track := primeTrack zone a in
  let a := if truthy_str track then set_src track a else a in
  play (set_muted true a).

(** Lines 113-119 when the muted [play()] is fulfilled, lines 125-129 when
    it is rejected.  The result is the element, the next stage and the
    warning logged, if any. *)
Definition primeAudio_afterMuted (ok : bool) (a : Audio)
  : Audio * PrimeStage * option string :=
  if ok then
    let a := playing a in
    let a := pause a in
    let a := set_currentTime 0 a in
    let a := set_muted false a in
    (play a, AwaitAudiblePlay, None)
  else
    (set_muted false a, PrimeReturned false,
     Some "Priming muted play failed:"%string).

(** Lines 120-124 once the audible [play()] has settled. *)
Definition primeAudio_afterAudible (ok : bool) (a : Audio)
  : Audio * PrimeStage * option string :=
  if ok then (playing a, PrimeReturned true, None)
  else (a, PrimeReturned true,
        Some "audible play after priming failed:"%string).

(** [primeAudio] run from its call to its return, with the outcomes of its
    two [play()] calls: the element (when there is one) and the value
    returned. *)
Definition primeAudio (zone : option Zone) (ref : option Audio)
    (mutedOk audibleOk : bool) : option Audio * bool :=
  match ref with
  | None => (None, false)
  | Some a =>
      let a := primeAudio_begin zone a in
      match primeAudio_afterMuted mutedOk a with
      | (a, PrimeReturned ok, _) => (Some a, ok)
      | (a, _, _) =>
          match primeAudio_afterAudible audibleOk a with
          | (a, PrimeReturned ok, _) => (Some a, ok)
          | (a, _, _) => (Some a, false)
          end
      end
  end.

(** ** The unlock entry point (lines 134-150) *)

(** Lines 135-138, up to the [await].  [snap] is the snapshot of the render
    that created this [handleUserEnable]: the guard reads its
    [primingInProgress], and [primeAudio] its [zone]. *)
Definition handleUserEnable_begin (snap : Hooks) (app : App) : App :=
  if primingInProgress snap then app
  else
    let app := setPrimingInProgress true app in
    match audioRef app with
    | None => with_priming (PrimeReturned false :: priming app) app
    | Some a =>
        with_priming (AwaitMutedPlay :: priming app)
                     (with_audio (primeAudio_begin (zone snap) a) app)
    end.

(** Lines 139-149, after [primeAudio] has returned [ok]. *)
Definition handleUserEnable_resume (ok : bool) (app : App) : App :=
  let app := setPrimingInProgress false app in
  if ok then
    let app :=
      with_storage
        (try_storage (setItem "audioPrimed" "1" (localStorage app))
                     (localStorage app)) app in
    setAudioPrimed true app
  else setAudioPrimed false app.

Definition log_opt (msg : option string) (app : App) : App :=
  match msg with
  | Some m => log m app
  | None => app
  end.

Fixpoint replace_nth {A : Type} (i : nat) (x : A) (l : list A) : list A :=
  match l, i with
  | [], _ => []
  | _ :: rest, O => x :: rest
  | y :: rest, S i' => y :: replace_nth i' x rest
  end.

Fixpoint remove_nth {A : Type} (i : nat) (l : list A) : list A :=
  match l, i with
  | [], _ => []
  | _ :: rest, O => rest
  | y :: rest, S i' => y :: remove_nth i' rest
  end.

(** The [play()] promise awaited by the [i]-th pending invocation settles. *)
Definition primePlaySettled (i : nat) (ok : bool) (app : App) : App :=
  match nth_error (priming app) i, audioRef app with
  | Some AwaitMutedPlay, Some a =>
      let '(a, stage, msg) := primeAudio_afterMuted ok a in
      log_opt msg
        (with_priming (replace_nth i stage (priming app)) (with_audio a app))
  | Some AwaitAudiblePlay, Some a =>
      let '(a, stage, msg) := primeAudio_afterAudible ok a in
      log_opt msg
        (with_priming (replace_nth i stage (priming app)) (with_audio a app))
  | _, _ => app
  end.

(** The [i]-th pending invocation continues after its [await primeAudio()]. *)
Definition primeResumed (i : nat) (app : App) : App :=
  match nth_error (priming app) i with
  | Some (PrimeReturned ok) =>
      handleUserEnable_resume ok
        (with_priming (remove_nth i (priming app)) app)
  | _ => app
  end.

(** One invocation of [handleUserEnable] from call to return, nothing else
    running in between; [mutedOk] and [audibleOk] are the outcomes of the
    two [play()] calls of [primeAudio]. *)
Definition handleUserEnable (snap : Hooks) (mutedOk audibleOk : bool)
    (app : App) : App :=
  if primingInProgress snap then app
  else
    primeResumed 0
      (primePlaySettled 0 audibleOk
         (primePlaySettled 0 mutedOk (handleUserEnable_begin snap app))).

(** The number of [primeAudio] attempts in flight. *)
Definition attemptsInFlight (app : App) : nat :=
  List.length
    (filter (fun s => match s with PrimeReturned _ => false | _ => true end)
            (priming app)).

(** ** Gesture listener (lines 153-176) and the button (lines 213-227) *)

(** The effect of lines 153-176, run by the render whose snapshot is [snap]:
    the clean-up of the previous run removes its listener, then a listener
    closing over [snap] is added unless audio is primed. *)
Definition gestureEffect (snap : Hooks) (app : App) : App :=
  if audioPrimed snap then with_listener None app
  else with_listener (Some snap) app.

(** [onGesture]: a click, touch or key press reaches the window listener. *)
Definition onGesture (app : App) : App :=
  match gestureListener app with
  | None => app
  | Some snap => handleUserEnable_begin snap (with_listener None app)
  end.

(** [onClick={handleUserEnable}] of the button of the committed render; the
    button exists while the banner shows and reacts unless disabled. *)
Definition buttonClick (app : App) : App :=
  let snap := view app in
  if audioPrimed snap then app
  else if primingInProgress snap then app
  else handleUserEnable_begin snap app.

(** A click on the Enable Audio button: the capturing listener of the window
    runs first, then the button's own handler.  A setter called by the
    first handler only schedules a render; here both handlers run before
    that render, as they do when the click is dispatched from script
    ([button.click()], a test's [fireEvent.click]). *)
Definition clickEnableButton (app : App) : App :=
  buttonClick (onGesture app).

(** The next render: the snapshot becomes the state written so far. *)
Definition rerender (app : App) : App :=
  {| state := state app; view := state app;
     gestureListener := gestureListener app;
     audioRef := audioRef app; localStorage := localStorage app;
     priming := priming app; autoPlays := autoPlays app;
     console := console app |}.

(** ** Start of a session *)

Definition initialHooks (st : Storage) : Hooks :=
  {| zones := JArray []; coords := None; zone := None;
     audioPrimed := persistedFlag st; primingInProgress := false |}.

(** The first render and its effects. *)
Definition mount (st : Storage) (ref : option Audio) : Completion App :=
  let h := initialHooks st in
  let app :=
    {| state := h; view := h; gestureListener := None; audioRef := ref;
       localStorage := st; priming := []; autoPlays := 0; console := [] |} in
  match zoneEffect h app with
  | Throw e => Throw e
  | Normal app => Normal (gestureEffect h app)
  end.

(** ** Location watch (lines 58-69) *)

(** The success callback of [watchPosition]: [(p) => setCoords(p.coords)]. *)
Definition positionFix (c : Coords) (app : App) : App := setCoords c app.

(** ** Sample data *)

(** A zone whose record carries [radius_m: 0], centred a ten-thousandth of a
    degree north of the origin (about 11 m). *)
Definition zoneRadius0 : Zone :=
  {| id := 1; name := "Quad"; center := {| lat := 1 / 10000; lng := 0 |};
     radius_m := Some 0; playlist := Some ["/Music/quad.mp3"%string] |}.

Definition origin : Coords := {| latitude := 0; longitude := 0 |}.

Definition emptyStorage : Storage := {| available := true; items := [] |}.

(** The zone of the scenarios of the specification: centred at the origin,
    radius 100 m. *)
Definition zoneAtOrigin : Zone :=
  {| id := 1; name := "Origin"; center := {| lat := 0; lng := 0 |};
     radius_m := Some 100; playlist := Some ["/Music/origin.mp3"%string] |}.

(** A locked session standing in [zoneAtOrigin], as a render sees it. *)
Definition lockedAtOrigin : Hooks :=
  {| zones := JArray [zoneAtOrigin]; coords := Some origin; zone := None;
     audioPrimed := false; primingInProgress := false |}.

(** A session whose position is not known yet. *)
Definition waitingForFix (primed : bool) : Hooks :=
  {| zones := JArray [zoneAtOrigin]; coords := None; zone := None;
     audioPrimed := primed; primingInProgress := false |}.

(** The component around a snapshot, with an audio element that is playing
    [track]. *)
Definition appPlaying (h : Hooks) (track : string) : App :=
  {| state := h; view := h; gestureListener := None;
     audioRef := Some {| src := track; muted := false; currentTime := 12;
                         paused := false; playCalls := 1 |};
     localStorage := emptyStorage; priming := []; autoPlays := 0;
     console := [] |}.

Definition freshAudio : Audio :=
  {| src := ""; muted := false; currentTime := 0; paused := true;
     playCalls := 0 |}.

Definition noStorage : Storage := {| available := false; items := [] |}.

(** * Properties *)

(** ** Numbers and comparisons *)

Lemma Rleb_true_iff (x y : R) : Rleb x y = true <-> x <= y.
Proof.
  unfold Rleb. destruct (Rle_dec x y) as [H | H]; split; intro K;
    try reflexivity; try assumption; try discriminate; contradiction.
Qed.

Lemma Rleb_false_iff (x y : R) : Rleb x y = false <-> ~ x <= y.
Proof.
  unfold Rleb. destruct (Rle_dec x y) as [H | H]; split; intro K;
    try reflexivity; try assumption; try discriminate; contradiction.
Qed.

Lemma truthy_num_0 : truthy_num 0 = false.
Proof.
  unfold truthy_num. destruct (Req_dec_T 0 0) as [_ | H];
    [reflexivity | exfalso; apply H; reflexivity].
Qed.

Lemma truthy_num_nonzero (r : R) : r <> 0 -> truthy_num r = true.
Proof.
  intro H. unfold truthy_num. destruct (Req_dec_T r 0) as [E | _];
    [contradiction | reflexivity].
Qed.

(** [z.radius_m || 50], case by case. *)
Lemma radius_or_default_cases (z : Zone) :
  (radius_m z = None -> radius_or_default z = 50) /\
  (radius_m z = Some 0 -> radius_or_default z = 50) /\
  (forall r, radius_m z = Some r -> r <> 0 -> radius_or_default z = r).
Proof.
  unfold radius_or_default. repeat split.
  - intros ->. reflexivity.
  - intros ->. rewrite truthy_num_0. reflexivity.
  - intros r -> Hr. rewrite (truthy_num_nonzero r Hr). reflexivity.
Qed.

(** ** Haversine distance *)

Lemma toRad_0 : toRad 0 = 0.
Proof. unfold toRad. lra. Qed.

Lemma atan2_right (y x : R) : 0 < x -> Math.atan2 y x = atan (y / x).
Proof.
  intro Hx. unfold Math.atan2. destruct (Rlt_dec 0 x); [reflexivity | contradiction].
Qed.

(** A point and itself are 0 m apart. *)
Lemma distanceMeters_same (la lo : R) : distanceMeters la lo la lo = 0.
Proof.
  unfold distanceMeters, Math.sin, Math.sqrt.
  replace (la - la) with 0 by lra. replace (lo - lo) with 0 by lra.
  rewrite toRad_0. replace (0 / 2) with 0 by lra. rewrite sin_0.
  replace (0 ^ 2 + Math.cos (toRad la) * Math.cos (toRad la) * 0 ^ 2)
    with 0 by (simpl; lra).
  rewrite sqrt_0. replace (1 - 0) with 1 by lra. rewrite sqrt_1.
  rewrite atan2_right by lra.
  replace (0 / 1) with 0 by lra. rewrite atan_0. lra.
Qed.

(** Along a meridian the distance is the arc: radius times angle. *)
Lemma distanceMeters_meridian (x : R) :
  0 <= x < 180 ->
  distanceMeters 0 0 x 0 = 6371000 * (x * PI / 180).
Proof.
  intros [H0 H1].
  assert (HPI := PI_RGT_0).
  set (t := x * PI / 360).
  assert (Ht0 : 0 <= t) by (unfold t; nra).
  assert (Ht1 : t < PI / 2) by (unfold t; nra).
  assert (Hs : 0 <= sin t) by (apply sin_ge_0; lra).
  assert (Hc : 0 < cos t) by (apply cos_gt_0; lra).
  unfold distanceMeters, Math.sin, Math.cos, Math.sqrt.
  replace (0 - 0) with 0 by lra. rewrite toRad_0.
  replace (0 / 2) with 0 by lra. rewrite sin_0.
  replace (toRad (x - 0) / 2) with t by (unfold toRad, Math.PI, t; lra).
  replace (sin t ^ 2 + cos 0 * cos (toRad x) * 0 ^ 2) with (Rsqr (sin t))
    by (unfold Rsqr; simpl; lra).
  replace (1 - Rsqr (sin t)) with (Rsqr (cos t)) by (rewrite cos2; reflexivity).
  rewrite (sqrt_Rsqr (sin t) Hs), (sqrt_Rsqr (cos t)) by lra.
  rewrite atan2_right by exact Hc.
  change (sin t / cos t) with (tan t).
  rewrite atan_tan by lra.
  unfold t. lra.
Qed.

Lemma distanceMeters_meridian_sym (x : R) :
  0 <= x < 180 ->
  distanceMeters x 0 0 0 = 6371000 * (x * PI / 180).
Proof.
  intro Hx. rewrite <- (distanceMeters_meridian x Hx).
  unfold distanceMeters, Math.sin, Math.cos.
  replace (0 - 0) with 0 by lra.
  replace (toRad (0 - x) / 2) with (- (toRad (x - 0) / 2))
    by (unfold toRad; lra).
  rewrite sin_neg.
  replace ((- sin (toRad (x - 0) / 2)) ^ 2) with (sin (toRad (x - 0) / 2) ^ 2)
    by (simpl; lra).
  rewrite (Rmult_comm (cos (toRad x)) (cos (toRad 0))). reflexivity.
Qed.

(** The sample zone is about 11 m from the origin: more than 0, within 50. *)
Lemma distanceTo_zoneRadius0 :
  distanceTo origin zoneRadius0 = 6371000 * (1 / 10000 * PI / 180).
Proof.
  unfold distanceTo, origin, zoneRadius0. cbn [latitude longitude lat lng center].
  apply distanceMeters_meridian. lra.
Qed.

Lemma distanceTo_zoneRadius0_bounds :
  0 < distanceTo origin zoneRadius0 <= 50.
Proof.
  rewrite distanceTo_zoneRadius0.
  assert (H0 := PI_RGT_0). assert (H4 := PI_4). lra.
Qed.

(** ** Zone resolver *)

Section Resolver.

Variable coords : Coords.

Lemma covers_reaches (z : Zone) :
  covers coords z = true <-> reaches coords z.
Proof. unfold covers, reaches. cbv zeta. apply Rleb_true_iff. Qed.

Lemma covers_not_reaches (z : Zone) :
  covers coords z = false <-> ~ reaches coords z.
Proof. unfold covers, reaches. cbv zeta. apply Rleb_false_iff. Qed.

(** The loop returns a zone exactly when it splits the list at the first
    zone within reach. *)
Lemma findZone_loop_some (zs : list Zone) (z : Zone) :
  findZone_loop zs coords = Some z ->
  exists pre post,
    zs = pre ++ z :: post /\ reaches coords z /\
    Forall (fun y => ~ reaches coords y) pre.
Proof.
  induction zs as [| y rest IH]; simpl.
  - discriminate.
  - destruct (covers coords y) eqn:Hy.
    + intros [= ->]. exists [], rest. repeat split.
      * apply covers_reaches, Hy.
      * constructor.
    + intro H. destruct (IH H) as (pre & post & -> & Hz & Hpre).
      exists (y :: pre), post. repeat split; try assumption.
      constructor; [apply covers_not_reaches, Hy | assumption].
Qed.

Lemma findZone_loop_none (zs : list Zone) :
  findZone_loop zs coords = None -> Forall (fun y => ~ reaches coords y) zs.
Proof.
  induction zs as [| y rest IH]; simpl.
  - constructor.
  - destruct (covers coords y) eqn:Hy; [discriminate |].
    intro H. constructor; [apply covers_not_reaches, Hy | apply IH, H].
Qed.

Lemma findZone_loop_skip (pre post : list Zone) (z : Zone) :
  Forall (fun y => covers coords y = false) pre ->
  covers coords z = true ->
  findZone_loop (pre ++ z :: post) coords = Some z.
Proof.
  induction 1 as [| y pre Hy _ IH]; simpl; intro Hz.
  - rewrite Hz. reflexivity.
  - rewrite Hy. apply IH, Hz.
Qed.

End Resolver.

(** On a directory that keeps the data-model invariant ([radius_m], when
    present, is not 0) the loop is the resolver of the specification. *)
Lemma findZone_loop_resolve_spec (zs : list Zone) (c : Coords) :
  Forall (fun z => radius_m z <> Some 0) zs ->
  findZone_loop zs c = resolve_spec zs c.
Proof.
  unfold resolve_spec.
  induction 1 as [| z rest Hz _ IH]; simpl; [reflexivity |].
  assert (E : covers c z = spec_covers c z).
  { unfold covers, spec_covers, radius_or_default, spec_radius. cbv zeta.
    destruct (radius_m z) as [r |]; [| reflexivity].
    rewrite truthy_num_nonzero; [reflexivity |].
    intros ->. apply Hz. reflexivity. }
  rewrite E, IH. reflexivity.
Qed.

(** C1, as stated, fails: a zone whose record says [radius_m: 0] is matched
    from 11 m away, where the resolver of the specification (radius 0, the
    default being for an unspecified radius only) matches nothing. *)
Lemma findZone_radius0_not_spec :
  findZone (JArray [zoneRadius0]) (Some origin) = Normal (Some zoneRadius0) /\
  resolve_spec [zoneRadius0] origin = None /\
  findZone (JArray [zoneRadius0]) (Some origin)
  <> Normal (resolve_spec [zoneRadius0] origin).
Proof.
  destruct distanceTo_zoneRadius0_bounds as [Hlo Hhi].
  cut (findZone (JArray [zoneRadius0]) (Some origin)
       = Normal (Some zoneRadius0) /\
       resolve_spec [zoneRadius0] origin = None).
  { intros [H1 H2]. repeat split; try assumption.
    rewrite H1, H2. discriminate. }
  split.
  - simpl. replace (covers origin zoneRadius0) with true; [reflexivity |].
    symmetry. apply covers_reaches. unfold reaches.
    destruct (radius_or_default_cases zoneRadius0) as (_ & H0 & _).
    rewrite H0 by reflexivity. exact Hhi.
  - unfold resolve_spec. simpl.
    replace (spec_covers origin zoneRadius0) with false; [reflexivity |].
    symmetry. apply Rleb_false_iff. unfold spec_radius. simpl. lra.
Qed.

(** C1 (amended): for every zone list and every present coordinate,
    [findZone] returns the first zone in list order whose haversine distance
    from the coordinate is at most the zone's radius [radius_m || 50] (that
    is [radius_m] when present and not 0, and 50 m when it is unspecified or
    0), and none when no zone qualifies. *)
Theorem findZone_first_within_radius (zs : list Zone) (c : Coords) :
  (forall z,
      (radius_m z = None -> radius_or_default z = 50) /\
      (radius_m z = Some 0 -> radius_or_default z = 50) /\
      (forall r, radius_m z = Some r -> r <> 0 -> radius_or_default z = r)) /\
  ((exists pre z post,
       zs = pre ++ z :: post /\
       findZone (JArray zs) (Some c) = Normal (Some z) /\
       distanceTo c z <= radius_or_default z /\
       Forall (fun y => ~ distanceTo c y <= radius_or_default y) pre)
   \/
   (findZone (JArray zs) (Some c) = Normal None /\
    Forall (fun y => ~ distanceTo c y <= radius_or_default y) zs)).
Proof.
  split; [exact radius_or_default_cases |].
  simpl. destruct (findZone_loop zs c) as [z |] eqn:E.
  - left. destruct (findZone_loop_some c zs z E) as (pre & post & Hzs & Hz & Hpre).
    exists pre, z, post. repeat split; assumption.
  - right. split; [reflexivity | apply findZone_loop_none, E].
Qed.

(** C7: [findZone] returns none for every coordinate when the zone list is
    empty, and for every zone list when the coordinate is absent. *)
Theorem findZone_degenerate :
  (forall c : option Coords, findZone (JArray []) c = Normal None) /\
  (forall zs : JsonBody, findZone zs None = Normal None).
Proof.
  split.
  - intros [c |]; reflexivity.
  - intro zs. reflexivity.
Qed.

(** C9: a zone whose [radius_m] is present but 0 gets the 50 m default, so
    a coordinate within 50 m of its centre resolves to it (when no earlier
    zone of the list matches). *)
Theorem findZone_zero_radius_defaults (pre post : list Zone) (z : Zone)
    (c : Coords) :
  radius_m z = Some 0 ->
  distanceTo c z <= 50 ->
  Forall (fun y => covers c y = false) pre ->
  radius_or_default z = 50 /\
  findZone (JArray (pre ++ z :: post)) (Some c) = Normal (Some z).
Proof.
  intros Hr Hd Hpre.
  assert (H50 : radius_or_default z = 50).
  { destruct (radius_or_default_cases z) as (_ & H & _). exact (H Hr). }
  split; [exact H50 |].
  simpl. f_equal. apply findZone_loop_skip; [exact Hpre |].
  apply covers_reaches. unfold reaches. rewrite H50. exact Hd.
Qed.

Lemma findZone_zero_radius_defaults_witness :
  radius_or_default zoneRadius0 = 50 /\
  findZone (JArray ([] ++ zoneRadius0 :: [])) (Some origin)
  = Normal (Some zoneRadius0).
Proof.
  apply (findZone_zero_radius_defaults [] [] zoneRadius0 origin).
  - reflexivity.
  - exact (proj2 distanceTo_zoneRadius0_bounds).
  - constructor.
Defined.

(** ** Loading the zones *)

(** When no response arrives, or its body is not JSON, the failure is logged
    and the zones stay as they were. *)
Lemma zonesLoaded_rejected (res : FetchResult) (app : App) :
  res = NetworkError \/
  (exists st, res = Responded {| status := st; body := None |}) ->
  zones (state (zonesLoaded res app)) = zones (state app) /\
  console (zonesLoaded res app)
  = (console app ++ ["Failed to load zones:"%string])%list.
Proof.
  intros [-> | [st ->]]; split; reflexivity.
Qed.

(** C2 fails on the code.  After the backend's answer to a read failure
    (status 500, body [{error: 'Could not read zones'}]) the client has
    stored the error object as its zones and logged nothing; [findZone]
    then throws for every present coordinate, so the zone-change effect
    throws, and so does the render of the debug panel. *)
Theorem zones_error_response_breaks_client (e : JsError) (app : App)
    (c : Coords) :
  let r := apiZones (Throw e) in
  let app' := setCoords c (zonesLoaded (Responded r) app) in
  status r = 500%Z /\
  zones (state app')
  = JObject [("error", "Could not read zones")%string] /\
  console app' = console app /\
  findZone (zones (state app')) (Some c)
  = Throw (TypeError "zones is not iterable") /\
  zoneEffect (state app') (rerender app')
  = Throw (TypeError "zones is not iterable") /\
  debugPanel (zones (state app'))
  = Throw (TypeError "zones.map is not a function").
Proof.
  cbv zeta. repeat split; reflexivity.
Qed.

(** ** Storage *)

Lemma lookup_remove_key (k : string) (kvs : list (string * string)) :
  lookup k (remove_key k kvs) = None.
Proof.
  induction kvs as [| [k' v] rest IH]; simpl; [reflexivity |].
  destruct (String.eqb k k') eqn:E; [exact IH |].
  simpl. rewrite E. exact IH.
Qed.

Lemma persistedFlag_setItem (st : Storage) :
  available st = true ->
  persistedFlag (try_storage (setItem "audioPrimed" "1" st) st) = true.
Proof.
  intro H. unfold setItem. rewrite H. reflexivity.
Qed.

Lemma persistedFlag_removeItem (st : Storage) :
  persistedFlag (try_storage (removeItem "audioPrimed" st) st) = false.
Proof.
  unfold removeItem, persistedFlag, getItem.
  destruct (available st) eqn:H; simpl.
  - rewrite lookup_remove_key. reflexivity.
  - rewrite H. reflexivity.
Qed.

Lemma persistedFlag_unavailable (st : Storage) :
  available st = false -> persistedFlag st = false.
Proof.
  intro H. unfold persistedFlag, getItem. rewrite H. reflexivity.
Qed.

(** ** Unlock procedure *)

(** The value [primeAudio] returns. *)
Lemma primeAudio_returns (zone : option Zone) (ref : option Audio)
    (mutedOk audibleOk : bool) :
  snd (primeAudio zone ref mutedOk audibleOk)
  = match ref with Some _ => mutedOk | None => false end.
Proof.
  destruct ref as [a |]; [| reflexivity].
  destruct mutedOk, audibleOk; reflexivity.
Qed.

(** C10: whenever [primeAudio] returns with the audio element present, the
    element is not muted, whatever the outcomes of the two play attempts. *)
Theorem primeAudio_leaves_unmuted (zone : option Zone) (a : Audio)
    (mutedOk audibleOk : bool) :
  exists a', fst (primeAudio zone (Some a) mutedOk audibleOk) = Some a' /\
             muted a' = false.
Proof.
  destruct mutedOk, audibleOk; eexists; split; reflexivity.
Qed.

(** ** The unlock entry point *)

(** The guard: an invocation whose render saw [primingInProgress] does
    nothing. *)
Lemma handleUserEnable_begin_guarded (snap : Hooks) (app : App) :
  primingInProgress snap = true -> handleUserEnable_begin snap app = app.
Proof.
  intro H. unfold handleUserEnable_begin. rewrite H. reflexivity.
Qed.

(** An invocation whose render did not see [primingInProgress] starts an
    attempt, whatever the state written since. *)
Lemma handleUserEnable_begin_starts (snap : Hooks) (app : App) (a : Audio) :
  primingInProgress snap = false ->
  audioRef app = Some a ->
  attemptsInFlight (handleUserEnable_begin snap app)
  = S (attemptsInFlight app) /\
  option_map playCalls (audioRef (handleUserEnable_begin snap app))
  = Some (S (playCalls a)).
Proof.
  intros H Ha. unfold handleUserEnable_begin. rewrite H.
  destruct app as [s v l r st p n c]. simpl in Ha. subst r.
  cbn. split; [reflexivity |].
  destruct (truthy_str (primeTrack (zone snap) a)); reflexivity.
Qed.

(** One whole invocation, from the result of [primeAudio]. *)
Lemma handleUserEnable_run (snap : Hooks) (mutedOk audibleOk : bool)
    (app : App) :
  primingInProgress snap = false ->
  let ok := snd (primeAudio (zone snap) (audioRef app) mutedOk audibleOk) in
  let app' := handleUserEnable snap mutedOk audibleOk app in
  audioPrimed (state app') = ok /\
  primingInProgress (state app') = false /\
  priming app' = priming app /\
  audioRef app' = fst (primeAudio (zone snap) (audioRef app) mutedOk audibleOk) /\
  localStorage app'
  = (if ok
     then try_storage (setItem "audioPrimed" "1" (localStorage app))
                      (localStorage app)
     else localStorage app).
Proof.
  intro H. cbv zeta. unfold handleUserEnable, handleUserEnable_begin.
  rewrite H. destruct app as [s v l r st p n c].
  destruct r as [a |]; destruct mutedOk, audibleOk; cbn;
    repeat split; reflexivity.
Qed.

(** C3 fails on the code.  A session starts locked, with the gesture
    listener installed; one click on the Enable Audio button runs the
    window listener and then the button's handler.  Both closures were
    created by a render in which [primingInProgress] was false, the guard
    of line 135 passes twice, and two [primeAudio] attempts are in flight:
    [play()] has been called twice on the element. *)
Theorem click_starts_two_attempts :
  exists app0,
    mount emptyStorage (Some freshAudio) = Normal app0 /\
    attemptsInFlight app0 = 0%nat /\
    primingInProgress (state (onGesture app0)) = true /\
    attemptsInFlight (onGesture app0) = 1%nat /\
    attemptsInFlight (clickEnableButton app0) = 2%nat /\
    option_map playCalls (audioRef (clickEnableButton app0)) = Some 2%nat.
Proof.
  eexists. split; [reflexivity |]. repeat split; reflexivity.
Qed.

(** Once React has rendered again, the button's handler is guarded. *)
Lemma buttonClick_after_rerender (app : App) :
  primingInProgress (state app) = true ->
  buttonClick (rerender app) = rerender app.
Proof.
  intro H. unfold buttonClick. cbn [view rerender]. rewrite H.
  destruct (audioPrimed (state app)); reflexivity.
Qed.

(** When React does render between the two handlers, the same click starts
    one attempt only. *)
Lemma click_with_render_between_starts_one_attempt :
  exists app0,
    mount emptyStorage (Some freshAudio) = Normal app0 /\
    attemptsInFlight (buttonClick (rerender (onGesture app0))) = 1%nat.
Proof.
  eexists. split; reflexivity.
Qed.

(** C4, as stated, fails: with storage unavailable a successful unlock
    leaves no persisted flag, although the state is unlocked. *)
Lemma unlock_without_storage_not_persisted :
  exists app0,
    mount noStorage (Some freshAudio) = Normal app0 /\
    let app' := handleUserEnable (view app0) true true app0 in
    snd (primeAudio (zone (view app0)) (audioRef app0) true true) = true /\
    audioPrimed (state app') = true /\
    persistedFlag (localStorage app') = false.
Proof.
  eexists. split; [reflexivity |]. cbv zeta. repeat split; reflexivity.
Qed.

(** C4 (amended): after a successful unlock the state is UNLOCKED and, when
    storage is available, the persisted flag ['audioPrimed'] is set; and
    whenever an automatic play attempt fails, the persisted flag reads as
    unset and the state is LOCKED. *)
Theorem unlock_persisted_autoplay_failure_relocks :
  (forall (snap : Hooks) (a : Audio) (audibleOk : bool) (app : App),
      primingInProgress snap = false ->
      audioRef app = Some a ->
      let app' := handleUserEnable snap true audibleOk app in
      audioPrimed (state app') = true /\
      (available (localStorage app) = true ->
       persistedFlag (localStorage app') = true)) /\
  (forall app : App,
      let app' := autoPlaySettled false app in
      audioPrimed (state app') = false /\
      persistedFlag (localStorage app') = false).
Proof.
  split.
  - intros snap a audibleOk app Hsnap Ha. cbv zeta.
    destruct (handleUserEnable_run snap true audibleOk app Hsnap)
      as (Hp & _ & _ & _ & Hst).
    rewrite primeAudio_returns, Ha in Hp, Hst.
    split; [exact Hp |].
    intro Hav. rewrite Hst. apply persistedFlag_setItem, Hav.
  - intro app. cbv zeta. unfold autoPlaySettled. cbn.
    split; [reflexivity |]. apply persistedFlag_removeItem.
Qed.

Lemma unlock_persisted_autoplay_failure_relocks_witness :
  exists app0,
    mount emptyStorage (Some freshAudio) = Normal app0 /\
    (let app' := handleUserEnable (view app0) true false app0 in
     audioPrimed (state app') = true /\
     persistedFlag (localStorage app') = true) /\
    (let app' :=
       autoPlaySettled false (handleUserEnable (view app0) true false app0) in
     audioPrimed (state app') = false /\
     persistedFlag (localStorage app') = false).
Proof.
  eexists. split; [reflexivity |]. split.
  - cbv zeta.
    destruct (proj1 unlock_persisted_autoplay_failure_relocks
                (initialHooks emptyStorage) freshAudio false
                (gestureEffect (initialHooks emptyStorage)
                   {| state := initialHooks emptyStorage;
                      view := initialHooks emptyStorage;
                      gestureListener := None;
                      audioRef := Some freshAudio;
                      localStorage := emptyStorage;
                      priming := []; autoPlays := 0; console := [] |})
                eq_refl eq_refl) as [H1 H2].
    split; [exact H1 | exact (H2 eq_refl)].
  - exact (proj2 unlock_persisted_autoplay_failure_relocks _).
Defined.

(** C5, as stated, fails: with storage unavailable, an unlock whose muted
    play succeeds and whose audible play fails reports success but persists
    no flag. *)
Lemma audible_failure_without_storage_not_persisted :
  exists app0,
    mount noStorage (Some freshAudio) = Normal app0 /\
    let app' := handleUserEnable (view app0) true false app0 in
    snd (primeAudio (zone (view app0)) (audioRef app0) true false) = true /\
    audioPrimed (state app') = true /\
    persistedFlag (localStorage app') = false.
Proof.
  eexists. split; [reflexivity |]. cbv zeta. repeat split; reflexivity.
Qed.

(** C5 (amended): [primeAudio] reports success if and only if the muted
    play attempt succeeds (on an element that is present).  When the muted
    play fails, failure is reported, the state is LOCKED and the storage is
    untouched; when it succeeds and the audible play fails, success is
    still reported, the state is UNLOCKED and, when storage is available,
    the flag is persisted. *)
Theorem primeAudio_success_iff_muted_play :
  (forall (zone : option Zone) (ref : option Audio) (mutedOk audibleOk : bool),
      snd (primeAudio zone ref mutedOk audibleOk) = true
      <-> (ref <> None /\ mutedOk = true)) /\
  (forall (snap : Hooks) (audibleOk : bool) (app : App),
      primingInProgress snap = false ->
      let app' := handleUserEnable snap false audibleOk app in
      snd (primeAudio (zone snap) (audioRef app) false audibleOk) = false /\
      audioPrimed (state app') = false /\
      localStorage app' = localStorage app) /\
  (forall (snap : Hooks) (a : Audio) (app : App),
      primingInProgress snap = false ->
      audioRef app = Some a ->
      let app' := handleUserEnable snap true false app in
      snd (primeAudio (zone snap) (audioRef app) true false) = true /\
      audioPrimed (state app') = true /\
      (available (localStorage app) = true ->
       persistedFlag (localStorage app') = true)).
Proof.
  split; [| split].
  - intros zone ref mutedOk audibleOk. rewrite primeAudio_returns.
    destruct ref as [a |], mutedOk; split;
      try discriminate; try (intros [Hr Hm]; congruence);
      intros _; split; [discriminate | reflexivity].
  - intros snap audibleOk app Hsnap. cbv zeta.
    destruct (handleUserEnable_run snap false audibleOk app Hsnap)
      as (Hp & _ & _ & _ & Hst).
    assert (Hfalse :
              snd (primeAudio (zone snap) (audioRef app) false audibleOk)
              = false).
    { rewrite primeAudio_returns. destruct (audioRef app); reflexivity. }
    rewrite Hfalse in Hp, Hst. repeat split; assumption.
  - intros snap a app Hsnap Ha. cbv zeta.
    destruct (handleUserEnable_run snap true false app Hsnap)
      as (Hp & _ & _ & _ & Hst).
    assert (Htrue :
              snd (primeAudio (zone snap) (audioRef app) true false) = true).
    { rewrite primeAudio_returns, Ha. reflexivity. }
    rewrite Htrue in Hp, Hst. repeat split; try assumption.
    intro Hav. rewrite Hst. apply persistedFlag_setItem, Hav.
Qed.

Lemma primeAudio_success_iff_muted_play_witness :
  (snd (primeAudio None (Some freshAudio) true false) = true) /\
  (let app0 :=
     {| state := initialHooks emptyStorage; view := initialHooks emptyStorage;
        gestureListener := Some (initialHooks emptyStorage);
        audioRef := Some freshAudio; localStorage := emptyStorage;
        priming := []; autoPlays := 0; console := [] |} in
   (audioPrimed (state (handleUserEnable (view app0) false true app0)) = false /\
    localStorage (handleUserEnable (view app0) false true app0)
    = emptyStorage) /\
   (audioPrimed (state (handleUserEnable (view app0) true false app0)) = true /\
    persistedFlag (localStorage (handleUserEnable (view app0) true false app0))
    = true)).
Proof.
  destruct primeAudio_success_iff_muted_play as (Hiff & Hfail & Hok).
  split.
  - apply Hiff. split; [discriminate | reflexivity].
  - cbv zeta. split.
    + destruct (Hfail (initialHooks emptyStorage) true
                  {| state := initialHooks emptyStorage;
                     view := initialHooks emptyStorage;
                     gestureListener := Some (initialHooks emptyStorage);
                     audioRef := Some freshAudio;
                     localStorage := emptyStorage;
                     priming := []; autoPlays := 0; console := [] |}
                  eq_refl) as (_ & H1 & H2).
      split; [exact H1 | exact H2].
    + destruct (Hok (initialHooks emptyStorage) freshAudio
                  {| state := initialHooks emptyStorage;
                     view := initialHooks emptyStorage;
                     gestureListener := Some (initialHooks emptyStorage);
                     audioRef := Some freshAudio;
                     localStorage := emptyStorage;
                     priming := []; autoPlays := 0; console := [] |}
                  eq_refl eq_refl) as (_ & H1 & H2).
      split; [exact H1 | exact (H2 eq_refl)].
Defined.

(** ** Zone change *)

(** On an array of zones the effect runs to its end. *)
Lemma zoneEffect_on_array (snap : Hooks) (app : App) (zs : list Zone) :
  zones snap = JArray zs -> exists app', zoneEffect snap app = Normal app'.
Proof.
  intro Hz. unfold zoneEffect, findZone. rewrite Hz.
  destruct (coords snap) as [c |].
  - destruct (findZone_loop zs c) as [z |]; cbn.
    + destruct (audioRef app) as [a |]; [| eexists; reflexivity].
      destruct (audioPrimed snap && truthy_track (firstTrack z));
        eexists; reflexivity.
    + eexists; reflexivity.
  - eexists; reflexivity.
Qed.

(** C6: while the state is not UNLOCKED, the zone-change effect never calls
    [play()]: no automatic play promise is created, the number of [play()]
    calls on the element and its paused status stay as they were (the
    source may have been set to the zone's first track). *)
Theorem no_autoplay_while_locked (snap : Hooks) (app app' : App) :
  audioPrimed snap = false ->
  zoneEffect snap app = Normal app' ->
  autoPlays app' = autoPlays app /\
  option_map playCalls (audioRef app') = option_map playCalls (audioRef app) /\
  option_map paused (audioRef app') = option_map paused (audioRef app) /\
  option_map muted (audioRef app') = option_map muted (audioRef app).
Proof.
  intros Hlocked. unfold zoneEffect. rewrite Hlocked.
  destruct (findZone (zones snap) (coords snap)) as [[z |] | e];
    [| intros [= <-]; repeat split; reflexivity | discriminate].
  cbn [andb]. destruct app as [s v l r st p n c]. cbn.
  destruct r as [a |]; [| intros [= <-]; repeat split; reflexivity].
  intros [= <-]. cbn.
  destruct (firstTrack z) as [t |]; [destruct (truthy_str t) |];
    repeat split; reflexivity.
Qed.

Lemma findZone_at_origin :
  findZone (JArray [zoneAtOrigin]) (Some origin) = Normal (Some zoneAtOrigin).
Proof.
  simpl. replace (covers origin zoneAtOrigin) with true; [reflexivity |].
  symmetry. apply covers_reaches. unfold reaches.
  destruct (radius_or_default_cases zoneAtOrigin) as (_ & _ & H).
  rewrite (H 100) by (reflexivity || lra).
  unfold distanceTo, origin, zoneAtOrigin. cbn [latitude longitude lat lng center].
  rewrite distanceMeters_same. lra.
Qed.

(** Scenario 6 of the specification: a hundredth of a degree north of the
    centre (about 1.1 km) is outside the 100 m zone. *)
Lemma findZone_far_from_origin :
  findZone (JArray [zoneAtOrigin])
           (Some {| latitude := 1 / 100; longitude := 0 |})
  = Normal None.
Proof.
  simpl.
  replace (covers {| latitude := 1 / 100; longitude := 0 |} zoneAtOrigin)
    with false; [reflexivity |].
  symmetry. apply covers_not_reaches. unfold reaches.
  destruct (radius_or_default_cases zoneAtOrigin) as (_ & _ & H).
  rewrite (H 100) by (reflexivity || lra).
  unfold distanceTo, zoneAtOrigin. cbn [latitude longitude lat lng center].
  rewrite distanceMeters_meridian_sym by lra.
  assert (H2 := PI2_1). lra.
Qed.

Lemma no_autoplay_while_locked_witness :
  exists app',
    zoneEffect lockedAtOrigin (appPlaying lockedAtOrigin "") = Normal app' /\
    option_map src (audioRef app') = Some "/Music/origin.mp3"%string /\
    autoPlays app' = 0%nat /\
    option_map playCalls (audioRef app') = Some 1%nat.
Proof.
  assert (E : zoneEffect lockedAtOrigin (appPlaying lockedAtOrigin "")
              = Normal
                  (with_audio
                     (set_src "/Music/origin.mp3"
                        {| src := ""; muted := false; currentTime := 12;
                           paused := false; playCalls := 1 |})
                     (setZone (Some zoneAtOrigin)
                        (appPlaying lockedAtOrigin "")))).
  { unfold zoneEffect. cbn [zones coords lockedAtOrigin].
    rewrite findZone_at_origin. reflexivity. }
  eexists. split; [exact E |].
  destruct (no_autoplay_while_locked lockedAtOrigin _ _ eq_refl E)
    as (Hn & Hp & _).
  split; [reflexivity |]. split; [exact Hn | exact Hp].
Defined.

(** C8: on a zone change where no zone is active, or where the audio
    element is not available, the effect takes no playback action: the
    element (source, mute state, position, paused status, [play()] calls)
    is left as it was, no play promise is created, and nothing but the
    [zone] state is written. *)
Theorem no_zone_no_playback_action (snap : Hooks) (app : App)
    (z : option Zone) :
  findZone (zones snap) (coords snap) = Normal z ->
  z = None \/ audioRef app = None ->
  zoneEffect snap app = Normal (setZone z app) /\
  audioRef (setZone z app) = audioRef app /\
  autoPlays (setZone z app) = autoPlays app /\
  localStorage (setZone z app) = localStorage app /\
  audioPrimed (state (setZone z app)) = audioPrimed (state app).
Proof.
  intros Hfind Hnone. unfold zoneEffect. rewrite Hfind.
  split; [| repeat split; reflexivity].
  destruct Hnone as [-> | Href]; [reflexivity |].
  destruct z as [z |]; [| reflexivity].
  destruct app as [s v l r st p n c]. cbn in Href |- *. subst r. reflexivity.
Qed.

Lemma no_zone_no_playback_action_witness :
  zoneEffect (waitingForFix true) (appPlaying (waitingForFix true) "/Music/origin.mp3")
  = Normal (setZone None (appPlaying (waitingForFix true) "/Music/origin.mp3")) /\
  audioRef (setZone None (appPlaying (waitingForFix true) "/Music/origin.mp3"))
  = Some {| src := "/Music/origin.mp3"; muted := false; currentTime := 12;
            paused := false; playCalls := 1 |}.
Proof.
  destruct (no_zone_no_playback_action (waitingForFix true)
              (appPlaying (waitingForFix true) "/Music/origin.mp3") None
              eq_refl (or_introl eq_refl)) as (H1 & H2 & _).
  split; [exact H1 | exact H2].
Defined.

(** * Further properties of the code *)

(** ** Haversine distance *)

Lemma toRad_neg (u : R) : toRad (- u) = - toRad u.
Proof. unfold toRad. lra. Qed.

Lemma sin_half_sq_neg (u : R) : sin (- u / 2) ^ 2 = sin (u / 2) ^ 2.
Proof.
  replace (- u / 2) with (- (u / 2)) by lra. rewrite sin_neg. simpl. lra.
Qed.

(** X1: the distance from A to B is the distance from B to A. *)
Theorem distanceMeters_symmetric (lat1 lon1 lat2 lon2 : R) :
  distanceMeters lat1 lon1 lat2 lon2 = distanceMeters lat2 lon2 lat1 lon1.
Proof.
  unfold distanceMeters, Math.sin, Math.cos. cbv zeta.
  replace (lat1 - lat2) with (- (lat2 - lat1)) by lra.
  replace (lon1 - lon2) with (- (lon2 - lon1)) by lra.
  rewrite !toRad_neg, !sin_half_sq_neg.
  rewrite (Rmult_comm (cos (toRad lat2)) (cos (toRad lat1))).
  reflexivity.
Qed.

(** [Math.atan2] of two numbers that are not negative is an angle of the
    first quadrant. *)
Lemma atan2_first_quadrant (y x : R) :
  0 <= y -> 0 <= x -> 0 <= Math.atan2 y x <= PI / 2.
Proof.
  intros Hy Hx. assert (HPI := PI_RGT_0). unfold Math.atan2.
  destruct (Rlt_dec 0 x) as [Hpos | Hnpos].
  - assert (Hq : 0 <= y / x).
    { unfold Rdiv. apply Rmult_le_pos; [exact Hy |].
      left. apply Rinv_0_lt_compat, Hpos. }
    destruct (atan_bound (y / x)) as [_ Hub].
    split; [| lra].
    destruct Hq as [Hq | Hq].
    + left. rewrite <- atan_0. apply atan_increasing, Hq.
    + rewrite <- Hq, atan_0. lra.
  - destruct (Rlt_dec x 0) as [Hneg | _]; [lra |].
    destruct (Rlt_dec 0 y) as [_ | _]; [lra |].
    destruct (Rlt_dec y 0) as [Hyn | _]; lra.
Qed.

Lemma distanceMeters_nonneg (lat1 lon1 lat2 lon2 : R) :
  0 <= distanceMeters lat1 lon1 lat2 lon2.
Proof.
  unfold distanceMeters, Math.sqrt. cbv zeta.
  match goal with
  | |- context [Math.atan2 (sqrt ?a) (sqrt ?b)] =>
      destruct (atan2_first_quadrant (sqrt a) (sqrt b)
                  (sqrt_pos a) (sqrt_pos b)) as [Hlo _]
  end.
  nra.
Qed.


(** The central angle of the haversine, when the haversine is [sin t ^ 2]. *)
Lemma haversine_angle (t : R) :
  - (PI / 2) < t < PI / 2 ->
  Math.atan2 (sqrt (Rsqr (sin t))) (sqrt (1 - Rsqr (sin t))) = Rabs t.
Proof.
  intros [Hlo Hhi]. assert (HPI := PI_RGT_0).
  assert (Hc : 0 < cos t) by (apply cos_gt_0; lra).
  replace (1 - Rsqr (sin t)) with (Rsqr (cos t)) by (rewrite cos2; reflexivity).
  rewrite !sqrt_Rsqr_abs. rewrite (Rabs_right (cos t)) by lra.
  rewrite atan2_right by exact Hc.
  destruct (Rle_lt_dec 0 t) as [Hpos | Hneg].
  - assert (Hs : 0 <= sin t) by (apply sin_ge_0; lra).
    rewrite (Rabs_right (sin t)), (Rabs_right t) by lra.
    change (sin t / cos t) with (tan t). apply atan_tan. lra.
  - assert (Hs : sin t < 0) by (apply sin_lt_0_var; lra).
    rewrite (Rabs_left (sin t)), (Rabs_left t) by lra.
    replace (- sin t / cos t) with (tan (- t))
      by (rewrite tan_neg; unfold tan; lra).
    apply atan_tan. lra.
Qed.

(** X3: two points on one meridian, less than 180 degrees of latitude apart, are
    the arc between them apart: the radius times the angle in radians. *)
Theorem distanceMeters_same_meridian (lat1 lat2 lon : R) :
  Rabs (lat2 - lat1) < 180 ->
  distanceMeters lat1 lon lat2 lon
  = 6371000 * (Rabs (lat2 - lat1) * PI / 180).
Proof.
  intro H. assert (HPI := PI_RGT_0).
  set (t := (lat2 - lat1) * PI / 360).
  assert (Habs : Rabs t = Rabs (lat2 - lat1) * PI / 360).
  { unfold t, Rdiv. rewrite !Rabs_mult.
    rewrite (Rabs_right PI) by lra. rewrite (Rabs_right (/ 360)) by lra.
    reflexivity. }
  assert (Ht : - (PI / 2) < t < PI / 2).
  { assert (Hlt : Rabs t < PI / 2) by (rewrite Habs; nra).
    destruct (Rabs_def2 t (PI / 2) Hlt) as [Hup Hdown]. split; lra. }
  unfold distanceMeters, Math.sin, Math.cos, Math.sqrt. cbv zeta.
  replace (lon - lon) with 0 by lra. rewrite toRad_0.
  replace (0 / 2) with 0 by lra. rewrite sin_0.
  replace (toRad (lat2 - lat1) / 2) with t by (unfold toRad, Math.PI, t; lra).
  replace (sin t ^ 2 + cos (toRad lat1) * cos (toRad lat2) * 0 ^ 2)
    with (Rsqr (sin t)) by (unfold Rsqr; simpl; lra).
  rewrite (haversine_angle t Ht), Habs. lra.
Qed.

Lemma distanceMeters_same_meridian_witness :
  distanceMeters 10 20 (-35) 20 = 6371000 * (Rabs (-35 - 10) * PI / 180).
Proof.
  apply (distanceMeters_same_meridian 10 (-35) 20).
  rewrite Rabs_left by lra. lra.
Defined.

(** X4: two points on the equator, less than 180 degrees of longitude apart, are
    the arc between them apart. *)
Theorem distanceMeters_equator (lon1 lon2 : R) :
  Rabs (lon2 - lon1) < 180 ->
  distanceMeters 0 lon1 0 lon2 = 6371000 * (Rabs (lon2 - lon1) * PI / 180).
Proof.
  intro H. assert (HPI := PI_RGT_0).
  set (t := (lon2 - lon1) * PI / 360).
  assert (Habs : Rabs t = Rabs (lon2 - lon1) * PI / 360).
  { unfold t, Rdiv. rewrite !Rabs_mult.
    rewrite (Rabs_right PI) by lra. rewrite (Rabs_right (/ 360)) by lra.
    reflexivity. }
  assert (Ht : - (PI / 2) < t < PI / 2).
  { assert (Hlt : Rabs t < PI / 2) by (rewrite Habs; nra).
    destruct (Rabs_def2 t (PI / 2) Hlt) as [Hup Hdown]. split; lra. }
  unfold distanceMeters, Math.sin, Math.cos, Math.sqrt. cbv zeta.
  replace (0 - 0) with 0 by lra. rewrite toRad_0.
  replace (0 / 2) with 0 by lra. rewrite sin_0, cos_0.
  replace (toRad (lon2 - lon1) / 2) with t by (unfold toRad, Math.PI, t; lra).
  replace (0 ^ 2 + 1 * 1 * sin t ^ 2)
    with (Rsqr (sin t)) by (unfold Rsqr; simpl; lra).
  rewrite (haversine_angle t Ht), Habs. lra.
Qed.

Lemma distanceMeters_equator_witness :
  distanceMeters 0 170 0 (-5) = 6371000 * (Rabs (-5 - 170) * PI / 180).
Proof.
  apply (distanceMeters_equator 170 (-5)).
  rewrite Rabs_left by lra. lra.
Defined.

(** ** Zone resolver *)

Lemma radius_or_default_nonneg (z : Zone) :
  (forall r, radius_m z = Some r -> 0 <= r) -> 0 <= radius_or_default z.
Proof.
  intro H. unfold radius_or_default.
  destruct (radius_m z) as [r |]; [| lra].
  destruct (truthy_num r); [apply H; reflexivity | lra].
Qed.

Lemma covers_at_center (z : Zone) (c : Coords) :
  latitude c = lat (center z) ->
  longitude c = lng (center z) ->
  (forall r, radius_m z = Some r -> 0 <= r) ->
  covers c z = true.
Proof.
  intros Hlat Hlng Hr.
  apply covers_reaches. unfold reaches, distanceTo.
  rewrite Hlat, Hlng, distanceMeters_same.
  apply radius_or_default_nonneg, Hr.
Qed.

(** X5: a position fix exactly at the centre of the first zone of the list
    resolves to that zone, whenever the zone's [radius_m] is unspecified or
    not negative (0 included). *)
Theorem findZone_at_center (z : Zone) (rest : list Zone) (c : Coords) :
  latitude c = lat (center z) ->
  longitude c = lng (center z) ->
  (forall r, radius_m z = Some r -> 0 <= r) ->
  findZone (JArray (z :: rest)) (Some c) = Normal (Some z).
Proof.
  intros Hlat Hlng Hr. simpl.
  rewrite (covers_at_center z c Hlat Hlng Hr). reflexivity.
Qed.

Lemma findZone_at_center_witness :
  findZone (JArray (zoneRadius0 :: [zoneAtOrigin]))
           (Some {| latitude := 1 / 10000; longitude := 0 |})
  = Normal (Some zoneRadius0).
Proof.
  apply (findZone_at_center zoneRadius0 [zoneAtOrigin]
           {| latitude := 1 / 10000; longitude := 0 |}).
  - reflexivity.
  - reflexivity.
  - intros r [= <-]. lra.
Defined.

(** X6: a zone whose [radius_m] is negative matches no position at all: the
    resolver passes over it. *)
Theorem negative_radius_never_matches (z : Zone) (r : R) (rest : list Zone)
    (c : Coords) :
  radius_m z = Some r ->
  r < 0 ->
  covers c z = false /\
  findZone (JArray (z :: rest)) (Some c) = findZone (JArray rest) (Some c).
Proof.
  intros Hz Hr.
  assert (Hc : covers c z = false).
  { apply covers_not_reaches. unfold reaches, distanceTo.
    destruct (radius_or_default_cases z) as (_ & _ & H).
    rewrite (H r Hz) by lra.
    assert (Hd := distanceMeters_nonneg (latitude c) (longitude c)
                    (lat (center z)) (lng (center z))).
    lra. }
  split; [exact Hc |]. simpl. rewrite Hc. reflexivity.
Qed.

Lemma negative_radius_never_matches_witness :
  covers origin
    {| id := 7; name := "Void"; center := {| lat := 0; lng := 0 |};
       radius_m := Some (-1); playlist := None |} = false /\
  findZone (JArray [ {| id := 7; name := "Void";
                        center := {| lat := 0; lng := 0 |};
                        radius_m := Some (-1); playlist := None |};
                     zoneAtOrigin ]) (Some origin)
  = findZone (JArray [zoneAtOrigin]) (Some origin).
Proof.
  apply (negative_radius_never_matches _ (-1) [zoneAtOrigin] origin).
  - reflexivity.
  - lra.
Defined.

(** X7: zones appended to the directory never take precedence: the resolver
    answers from the first part of the list when it can, and from the
    second part only when no zone of the first part matches. *)
Theorem findZone_append (xs ys : list Zone) (c : Coords) :
  findZone (JArray (xs ++ ys)) (Some c)
  = match findZone (JArray xs) (Some c) with
    | Normal None => findZone (JArray ys) (Some c)
    | found => found
    end.
Proof.
  simpl. induction xs as [| x xs IH]; simpl; [reflexivity |].
  destruct (covers c x); [reflexivity | exact IH].
Qed.

(** ** From the backend to the resolver *)

(** X8: when the backend can read the zones file, the client ends up with
    exactly the value the file holds, logs nothing and keeps the rest of
    its state. *)
Theorem zones_served_and_stored (v : JsonBody) (app : App) :
  let r := apiZones (Normal v) in
  let app' := zonesLoaded (Responded r) app in
  status r = 200%Z /\
  zones (state app') = v /\
  console app' = console app /\
  coords (state app') = coords (state app) /\
  zone (state app') = zone (state app) /\
  audioPrimed (state app') = audioPrimed (state app) /\
  audioRef app' = audioRef app /\
  localStorage app' = localStorage app.
Proof.
  cbv zeta. repeat split; reflexivity.
Qed.

(** What the zone-change effect writes, whichever branch it takes. *)
Lemma zoneEffect_writes (snap : Hooks) (app app' : App) :
  zoneEffect snap app = Normal app' ->
  exists z,
    findZone (zones snap) (coords snap) = Normal z /\
    state app' = state (setZone z app) /\
    localStorage app' = localStorage app /\
    gestureListener app' = gestureListener app /\
    priming app' = priming app.
Proof.
  unfold zoneEffect.
  destruct (findZone (zones snap) (coords snap)) as [z | e]; [| discriminate].
  intro H. exists z. split; [reflexivity |].
  destruct z as [z |]; [| injection H as <-; repeat split; reflexivity].
  destruct app as [s v l r st p n c]. cbn in H |- *.
  destruct r as [a |]; [| injection H as <-; repeat split; reflexivity].
  destruct (audioPrimed snap && truthy_track (firstTrack z));
    injection H as <-; repeat split; reflexivity.
Qed.

(** X9: after a position fix, the next render's zone-change effect makes the
    [zone] state the resolver's answer for the stored zones and the new
    position; zones, position and unlock state are not otherwise changed. *)
Theorem zone_follows_position (zs : list Zone) (c : Coords) (app : App) :
  zones (state app) = JArray zs ->
  let app1 := rerender (positionFix c app) in
  exists app',
    zoneEffect (view app1) app1 = Normal app' /\
    zone (state app') = findZone_loop zs c /\
    coords (state app') = Some c /\
    zones (state app') = JArray zs /\
    audioPrimed (state app') = audioPrimed (state app) /\
    primingInProgress (state app') = primingInProgress (state app).
Proof.
  intro Hz. cbv zeta.
  destruct (zoneEffect_on_array (view (rerender (positionFix c app)))
              (rerender (positionFix c app)) zs Hz) as [app' E].
  exists app'. split; [exact E |].
  destruct (zoneEffect_writes _ _ _ E) as (z & Hf & Hs & _).
  cbn in Hf. rewrite Hz in Hf. injection Hf as <-.
  rewrite Hs. cbn. rewrite Hz. repeat split; reflexivity.
Qed.

Lemma zone_follows_position_witness :
  exists app',
    zoneEffect (view (rerender (positionFix origin (appPlaying (waitingForFix true) ""))))
               (rerender (positionFix origin (appPlaying (waitingForFix true) "")))
    = Normal app' /\
    zone (state app') = Some zoneAtOrigin /\
    coords (state app') = Some origin.
Proof.
  destruct (zone_follows_position [zoneAtOrigin] origin
              (appPlaying (waitingForFix true) "") eq_refl)
    as (app' & E & Hzone & Hc & _).
  exists app'. split; [exact E |]. split; [| exact Hc].
  rewrite Hzone.
  assert (H := findZone_at_origin). simpl in H. injection H as H. exact H.
Defined.

(** ** Automatic playback on zone change *)

Lemma truthy_str_nonempty (t : string) : t <> ""%string -> truthy_str t = true.
Proof. destruct t; [intro H; contradiction H; reflexivity | reflexivity]. Qed.

(** X10: while unlocked, a run of the zone-change effect inside a zone that
    has a first track loads that track and calls [play()] exactly once,
    without touching the mute state. *)
Theorem autoplay_on_zone_entry (snap : Hooks) (app : App) (z : Zone)
    (t : string) (a : Audio) :
  audioPrimed snap = true ->
  findZone (zones snap) (coords snap) = Normal (Some z) ->
  firstTrack z = Some t ->
  t <> ""%string ->
  audioRef app = Some a ->
  exists app' a',
    zoneEffect snap app = Normal app' /\
    audioRef app' = Some a' /\
    src a' = t /\
    playCalls a' = S (playCalls a) /\
    muted a' = muted a /\
    autoPlays app' = S (autoPlays app) /\
    zone (state app') = Some z.
Proof.
  intros Hp Hf Ht Hne Ha. unfold zoneEffect. rewrite Hf, Hp, Ht.
  destruct app as [s v l r st p n c]. cbn in Ha. subst r. cbn.
  rewrite (truthy_str_nonempty t Hne). cbn.
  eexists. eexists. repeat split; reflexivity.
Qed.

Lemma autoplay_on_zone_entry_witness :
  let snap :=
    {| zones := JArray [zoneAtOrigin]; coords := Some origin; zone := None;
       audioPrimed := true; primingInProgress := false |} in
  exists app' a',
    zoneEffect snap (appPlaying snap "") = Normal app' /\
    audioRef app' = Some a' /\
    src a' = "/Music/origin.mp3"%string /\
    playCalls a' = 2%nat /\
    autoPlays app' = 1%nat.
Proof.
  cbv zeta.
  destruct (autoplay_on_zone_entry
              {| zones := JArray [zoneAtOrigin]; coords := Some origin;
                 zone := None; audioPrimed := true;
                 primingInProgress := false |}
              (appPlaying
                 {| zones := JArray [zoneAtOrigin]; coords := Some origin;
                    zone := None; audioPrimed := true;
                    primingInProgress := false |} "")
              zoneAtOrigin "/Music/origin.mp3"
              {| src := ""; muted := false; currentTime := 12;
                 paused := false; playCalls := 1 |}
              eq_refl findZone_at_origin eq_refl
              ltac:(discriminate) eq_refl)
    as (app' & a' & E & Ha & Hs & Hc & _ & Hn & _).
  exists app', a'. repeat split; assumption.
Defined.

(** X11: a zone without a playable first track (no playlist, an empty playlist,
    or an empty first entry) changes nothing on the audio element, even
    while unlocked: no source is set and [play()] is not called. *)
Theorem zone_without_track_is_silent (snap : Hooks) (app : App) (z : Zone) :
  findZone (zones snap) (coords snap) = Normal (Some z) ->
  playlist z = None \/ playlist z = Some [] \/
  (exists rest, playlist z = Some (""%string :: rest)) ->
  exists app',
    zoneEffect snap app = Normal app' /\
    audioRef app' = audioRef app /\
    autoPlays app' = autoPlays app /\
    zone (state app') = Some z.
Proof.
  intros Hf Hpl. unfold zoneEffect. rewrite Hf.
  assert (Ht : firstTrack z = None \/ firstTrack z = Some ""%string).
  { unfold firstTrack.
    destruct Hpl as [-> | [-> | [rest ->]]]; [left | left | right];
      reflexivity. }
  destruct app as [s v l r st p n c]. cbn.
  destruct r as [a |]; [| eexists; repeat split; reflexivity].
  destruct Ht as [-> | ->]; cbn; rewrite andb_false_r;
    eexists; repeat split; reflexivity.
Qed.

Lemma zone_without_track_is_silent_witness :
  let quiet :=
    {| id := 2; name := "Quiet"; center := {| lat := 0; lng := 0 |};
       radius_m := None; playlist := Some [] |} in
  let snap :=
    {| zones := JArray [quiet]; coords := Some origin; zone := None;
       audioPrimed := true; primingInProgress := false |} in
  exists app',
    zoneEffect snap (appPlaying snap "/Music/origin.mp3") = Normal app' /\
    audioRef app' = audioRef (appPlaying snap "/Music/origin.mp3") /\
    autoPlays app' = 0%nat.
Proof.
  cbv zeta.
  set (quiet := {| id := 2; name := "Quiet"; center := {| lat := 0; lng := 0 |};
                   radius_m := None; playlist := Some [] |}).
  set (snap := {| zones := JArray [quiet]; coords := Some origin; zone := None;
                  audioPrimed := true; primingInProgress := false |}).
  assert (Hf : findZone (zones snap) (coords snap) = Normal (Some quiet)).
  { cbn [zones coords snap findZone findZone_loop].
    rewrite (covers_at_center quiet origin eq_refl eq_refl);
      [reflexivity | intros r H; discriminate H]. }
  destruct (zone_without_track_is_silent snap
              (appPlaying snap "/Music/origin.mp3") quiet Hf
              (or_intror (or_introl eq_refl)))
    as (app' & E & Ha & Hn & _).
  exists app'. repeat split; assumption.
Defined.

(** ** Unlock procedure *)

(** X12: which track [primeAudio] loads: the first track of the active zone when
    there is one, and otherwise the source the element already has, which
    it keeps. *)
Theorem primeAudio_track_choice (a : Audio) (mutedOk audibleOk : bool) :
  (forall (z : Zone) (t : string),
      firstTrack z = Some t -> t <> ""%string ->
      option_map src (fst (primeAudio (Some z) (Some a) mutedOk audibleOk))
      = Some t) /\
  (forall zone : option Zone,
      zone = None \/
      (exists z, zone = Some z /\
                 (firstTrack z = None \/ firstTrack z = Some ""%string)) ->
      option_map src (fst (primeAudio zone (Some a) mutedOk audibleOk))
      = Some (src a)).
Proof.
  split.
  - intros z t Ht Hne. unfold primeAudio, primeAudio_begin, primeTrack.
    rewrite Ht, (truthy_str_nonempty t Hne). cbv zeta.
    rewrite (truthy_str_nonempty t Hne).
    destruct mutedOk, audibleOk; reflexivity.
  - intros zone Hz.
    assert (Htrack : primeTrack zone a
                     = if truthy_str (src a) then src a else ""%string).
    { unfold primeTrack.
      destruct Hz as [-> | (z & -> & [-> | ->])]; reflexivity. }
    unfold primeAudio, primeAudio_begin. cbv zeta. rewrite Htrack.
    destruct (truthy_str (src a)) eqn:Hs; [rewrite Hs |];
      destruct mutedOk, audibleOk; reflexivity.
Qed.

Lemma primeAudio_track_choice_witness :
  option_map src (fst (primeAudio (Some zoneAtOrigin) (Some freshAudio)
                                  true false))
  = Some "/Music/origin.mp3"%string /\
  option_map src (fst (primeAudio None (Some freshAudio) false false))
  = Some (src freshAudio).
Proof.
  split.
  - apply (proj1 (primeAudio_track_choice freshAudio true false)
             zoneAtOrigin "/Music/origin.mp3"%string eq_refl).
    discriminate.
  - apply (proj2 (primeAudio_track_choice freshAudio false false) None).
    left. reflexivity.
Defined.

(** X13: how often [primeAudio] calls [play()] and what it does to the
    position.  When the muted play fails, [play()] was called once and the
    position is untouched; when it succeeds, [play()] was called twice,
    whatever the audible play does, and the position was set to 0. *)
Theorem primeAudio_playback_state (zone : option Zone) (a : Audio)
    (audibleOk : bool) :
  (exists a', primeAudio zone (Some a) false audibleOk = (Some a', false) /\
              playCalls a' = S (playCalls a) /\
              currentTime a' = currentTime a) /\
  (exists a', primeAudio zone (Some a) true audibleOk = (Some a', true) /\
              playCalls a' = S (S (playCalls a)) /\
              currentTime a' = 0).
Proof.
  unfold primeAudio, primeAudio_begin. cbv zeta.
  destruct (truthy_str (primeTrack zone a)), audibleOk;
    (split; eexists; repeat split; reflexivity).
Qed.

(** ** The unlock entry point *)

(** X14: however [primeAudio] ends, an invocation of [handleUserEnable] that got
    past its guard ends with [primingInProgress] false and no invocation
    left pending: the next render enables the button again.  The gesture
    listener and the automatic play promises are not touched. *)
Theorem handleUserEnable_clears_progress (snap : Hooks)
    (mutedOk audibleOk : bool) (app : App) :
  primingInProgress snap = false ->
  let app' := handleUserEnable snap mutedOk audibleOk app in
  primingInProgress (state app') = false /\
  primingInProgress (view (rerender app')) = false /\
  priming app' = priming app /\
  attemptsInFlight app' = attemptsInFlight app /\
  gestureListener app' = gestureListener app /\
  autoPlays app' = autoPlays app.
Proof.
  intro H. cbv zeta.
  destruct (handleUserEnable_run snap mutedOk audibleOk app H)
    as (_ & Hp & Hq & _).
  repeat split; try assumption.
  - unfold attemptsInFlight. rewrite Hq. reflexivity.
  - unfold handleUserEnable, handleUserEnable_begin. rewrite H.
    destruct app as [s v l r st p n c].
    destruct r as [a |]; destruct mutedOk, audibleOk; reflexivity.
  - unfold handleUserEnable, handleUserEnable_begin. rewrite H.
    destruct app as [s v l r st p n c].
    destruct r as [a |]; destruct mutedOk, audibleOk; reflexivity.
Qed.

Lemma handleUserEnable_clears_progress_witness :
  let app := appPlaying lockedAtOrigin "" in
  primingInProgress (state (handleUserEnable lockedAtOrigin false true app))
  = false /\
  attemptsInFlight (handleUserEnable lockedAtOrigin false true app) = 0%nat.
Proof.
  cbv zeta.
  destruct (handleUserEnable_clears_progress lockedAtOrigin false true
              (appPlaying lockedAtOrigin "") eq_refl)
    as (H1 & _ & _ & H2 & _).
  split; [exact H1 | exact H2].
Defined.

(** ** Gesture listener *)

Lemma handleUserEnable_begin_listener (snap : Hooks) (app : App) :
  gestureListener (handleUserEnable_begin snap app) = gestureListener app.
Proof.
  unfold handleUserEnable_begin.
  destruct (primingInProgress snap); [reflexivity |].
  destruct app as [s v l r st p n c]. destruct r; reflexivity.
Qed.

(** X15: the window listener fires once: it removes itself before anything
    else, so further gestures do nothing until an effect installs it
    again. *)
Theorem onGesture_fires_once (app : App) :
  gestureListener (onGesture app) = None /\
  onGesture (onGesture app) = onGesture app.
Proof.
  assert (H : gestureListener (onGesture app) = None).
  { unfold onGesture. destruct (gestureListener app) as [snap |] eqn:E.
    - rewrite handleUserEnable_begin_listener. reflexivity.
    - exact E. }
  split; [exact H |].
  unfold onGesture at 1. rewrite H. reflexivity.
Qed.

(** X16: a listener installed by a render that saw [primingInProgress] true is
    spent by the next gesture without any unlock attempt, whatever the
    state has become since: the gesture is lost. *)
Theorem stale_listener_swallows_gesture (snap : Hooks) (app : App) :
  gestureListener app = Some snap ->
  primingInProgress snap = true ->
  gestureListener (onGesture app) = None /\
  attemptsInFlight (onGesture app) = attemptsInFlight app /\
  audioRef (onGesture app) = audioRef app /\
  state (onGesture app) = state app /\
  localStorage (onGesture app) = localStorage app.
Proof.
  intros Hl Hp. unfold onGesture. rewrite Hl.
  rewrite (handleUserEnable_begin_guarded snap _ Hp).
  repeat split; reflexivity.
Qed.

(** The trace behind the witness: an attempt starts, the zone changes while
    it is pending (the gesture effect runs again and captures
    [primingInProgress] true), the attempt fails and the component renders
    again. *)
Lemma stale_listener_swallows_gesture_witness :
  exists app0,
    mount emptyStorage (Some freshAudio) = Normal app0 /\
    let pending := rerender (onGesture app0) in
    let rearmed := gestureEffect (view pending) pending in
    let failed := rerender (primeResumed 0 (primePlaySettled 0 false rearmed)) in
    primingInProgress (view failed) = false /\
    attemptsInFlight failed = 0%nat /\
    gestureListener failed <> None /\
    gestureListener (onGesture failed) = None /\
    attemptsInFlight (onGesture failed) = 0%nat.
Proof.
  eexists. split; [reflexivity |]. cbv zeta.
  split; [reflexivity |]. split; [reflexivity |]. split; [discriminate |].
  match goal with
  | |- gestureListener (onGesture ?f) = None /\ _ =>
      destruct (stale_listener_swallows_gesture
                  {| zones := JArray []; coords := None; zone := None;
                     audioPrimed := false; primingInProgress := true |}
                  f eq_refl eq_refl) as (H1 & H2 & _)
  end.
  split; [exact H1 | exact H2].
Defined.

(** ** Sessions *)

Lemma mount_unfold (st : Storage) (ref : option Audio) :
  mount st ref
  = Normal
      (gestureEffect (initialHooks st)
         (setZone None
            {| state := initialHooks st; view := initialHooks st;
               gestureListener := None; audioRef := ref;
               localStorage := st; priming := []; autoPlays := 0;
               console := [] |})).
Proof. reflexivity. Qed.

(** X17: a session always starts: the first render never throws, touches neither
    the audio element nor the storage, and calls [play()] on nothing.  It
    starts unlocked exactly when storage is available and holds the value
    "1" under "audioPrimed", and the gesture listener is installed exactly
    when it starts locked. *)
Theorem mount_initial_state (st : Storage) (ref : option Audio) :
  exists app0,
    mount st ref = Normal app0 /\
    audioRef app0 = ref /\
    localStorage app0 = st /\
    autoPlays app0 = 0%nat /\
    priming app0 = [] /\
    zone (state app0) = None /\
    (audioPrimed (state app0) = true
     <-> available st = true /\
         lookup "audioPrimed" (items st) = Some "1"%string) /\
    (gestureListener app0 = None <-> audioPrimed (state app0) = true).
Proof.
  eexists. split; [apply mount_unfold |].
  unfold gestureEffect. cbn [audioPrimed initialHooks].
  assert (Hflag : persistedFlag st = true
                  <-> available st = true /\
                      lookup "audioPrimed" (items st) = Some "1"%string).
  { unfold persistedFlag, getItem. destruct (available st).
    - destruct (lookup "audioPrimed" (items st)) as [v |].
      + split.
        * intro H. apply String.eqb_eq in H. subst v. split; reflexivity.
        * intros [_ [= ->]]. reflexivity.
      + split; [discriminate | intros [_ H]; discriminate H].
    - split; [discriminate | intros [H _]; discriminate H]. }
  destruct (persistedFlag st) eqn:E; cbn; rewrite ?E;
    (repeat split; try reflexivity; try discriminate);
    try (intros _; apply Hflag; reflexivity);
    try (apply Hflag; reflexivity);
    try (intro H; apply Hflag in H; discriminate H).
Qed.

(** X18: a successful unlock survives a reload when storage is available: a
    session mounted on the storage it leaves starts unlocked, without a
    gesture listener. *)
Theorem unlock_survives_reload (snap : Hooks) (a : Audio) (audibleOk : bool)
    (app : App) (ref : option Audio) :
  primingInProgress snap = false ->
  audioRef app = Some a ->
  available (localStorage app) = true ->
  exists app1,
    mount (localStorage (handleUserEnable snap true audibleOk app)) ref
    = Normal app1 /\
    audioPrimed (state app1) = true /\
    gestureListener app1 = None.
Proof.
  intros Hs Ha Hav.
  destruct (handleUserEnable_run snap true audibleOk app Hs)
    as (_ & _ & _ & _ & Hst).
  rewrite primeAudio_returns, Ha in Hst.
  assert (Hflag : persistedFlag
                    (localStorage (handleUserEnable snap true audibleOk app))
                  = true).
  { rewrite Hst. apply persistedFlag_setItem, Hav. }
  eexists. split; [apply mount_unfold |].
  unfold gestureEffect. cbn [audioPrimed initialHooks]. rewrite Hflag.
  split; [exact Hflag | reflexivity].
Qed.

Lemma unlock_survives_reload_witness :
  exists app1,
    mount (localStorage
             (handleUserEnable lockedAtOrigin true true
                (appPlaying lockedAtOrigin "")))
          (Some freshAudio)
    = Normal app1 /\
    audioPrimed (state app1) = true /\
    gestureListener app1 = None.
Proof.
  exact (unlock_survives_reload lockedAtOrigin
           {| src := ""; muted := false; currentTime := 12;
              paused := false; playCalls := 1 |}
           true (appPlaying lockedAtOrigin "") (Some freshAudio)
           eq_refl eq_refl eq_refl).
Defined.

(** X19: after a failed automatic play, the session mounted on the storage it
    leaves starts locked with the gesture listener installed; and in the
    running session the next render's gesture effect installs a listener
    whose gesture starts an unlock attempt. *)
Theorem autoplay_failure_rearms_unlock (app : App) (a : Audio)
    (ref : option Audio) :
  audioRef app = Some a ->
  primingInProgress (state app) = false ->
  let failed := rerender (autoPlaySettled false app) in
  let rearmed := gestureEffect (view failed) failed in
  gestureListener rearmed = Some (view failed) /\
  attemptsInFlight (onGesture rearmed) = S (attemptsInFlight app) /\
  (exists app1,
      mount (localStorage failed) ref = Normal app1 /\
      audioPrimed (state app1) = false /\
      gestureListener app1 = Some (initialHooks (localStorage failed))).
Proof.
  intros Ha Hp. cbv zeta. split; [| split].
  - reflexivity.
  - destruct app as [s v l r st p n c]. cbn in Ha, Hp. subst r.
    unfold onGesture, gestureEffect, autoPlaySettled. cbn.
    unfold handleUserEnable_begin. cbn. rewrite Hp. reflexivity.
  - assert (Hflag : persistedFlag
                      (localStorage (rerender (autoPlaySettled false app)))
                    = false).
    { unfold autoPlaySettled. cbn. apply persistedFlag_removeItem. }
    eexists. split; [apply mount_unfold |].
    unfold gestureEffect. cbn [audioPrimed initialHooks]. rewrite Hflag.
    split; [exact Hflag | reflexivity].
Qed.

Lemma autoplay_failure_rearms_unlock_witness :
  let app := appPlaying (waitingForFix true) "/Music/origin.mp3" in
  let failed := rerender (autoPlaySettled false app) in
  let rearmed := gestureEffect (view failed) failed in
  audioPrimed (view failed) = false /\
  gestureListener rearmed = Some (view failed) /\
  attemptsInFlight (onGesture rearmed) = 1%nat.
Proof.
  cbv zeta.
  destruct (autoplay_failure_rearms_unlock
              (appPlaying (waitingForFix true) "/Music/origin.mp3")
              {| src := "/Music/origin.mp3"; muted := false;
                 currentTime := 12; paused := false; playCalls := 1 |}
              None eq_refl eq_refl) as (H1 & H2 & _).
  split; [reflexivity |]. split; [exact H1 | exact H2].
Defined.
